(** * easy-mcp: normalisation of the proxy prefix path

    A shallow embedding of [frontend/src/config/router.js]
    ([normalizeRouterBase], [normalizeRequestPrefix]) and of the Vite
    configuration ([normalizeBase]), together with the part of the
    JavaScript runtime these functions call: truthiness, strict equality,
    [String.prototype.trim], [String.prototype.slice] and
    [String.prototype.replace] with a global regular expression. *)

From Stdlib Require Import String Ascii.
From Stdlib Require Import List Bool Arith NArith ZArith Lia.
Import ListNotations.

Set Implicit Arguments.

(** ** JavaScript strings *)

(** A JavaScript string is a sequence of UTF-16 code units. *)
Definition code_unit := N.
Definition jsstring := list code_unit.

(** String literals of the source are ASCII; [lit] gives their code units. *)
Definition lit (s : string) : jsstring :=
  map N_of_ascii (list_ascii_of_string s).

Definition slash : code_unit := 47%N.
Definition is_slash (c : code_unit) : bool := N.eqb c slash.

(** The code units [trim] removes: ECMAScript's WhiteSpace and
    LineTerminator productions. *)
Definition is_white_space (c : code_unit) : bool :=
  ((9 <=? c) && (c <=? 13) (* TAB, LF, VT, FF, CR *)
   || (c =? 32) || (c =? 160) || (c =? 5760)
   || (8192 <=? c) && (c <=? 8202)
   || (c =? 8232) || (c =? 8233) || (c =? 8239) || (c =? 8287)
   || (c =? 12288) || (c =? 65279))%N.

Section Dropping.
Variable A : Type.
Variable p : A -> bool.

Fixpoint drop_while (l : list A) : list A :=
  match l with
  | [] => []
  | c :: tl => if p c then drop_while tl else l
  end.

Fixpoint drop_while_end (l : list A) : list A :=
  match l with
  | [] => []
  | c :: tl =>
      match drop_while_end tl with
      | [] => if p c then [] else [c]
      | r => c :: r
      end
  end.
End Dropping.

(** [String.prototype.trim]: TrimString with "start+end". *)
Definition trim (s : jsstring) : jsstring :=
  drop_while_end is_white_space (drop_while is_white_space s).

Fixpoint jsstring_eqb (a b : jsstring) : bool :=
  match a, b with
  | [], [] => true
  | x :: a', y :: b' => N.eqb x y && jsstring_eqb a' b'
  | _, _ => false
  end.

(** [String.prototype.slice (start, end)]. *)
Definition slice (s : jsstring) (start fin : Z) : jsstring :=
  let len := Z.of_nat (length s) in
  let from := if (start <? 0)%Z then Z.max (len + start) 0 else Z.min start len in
  let to := if (fin <? 0)%Z then Z.max (len + fin) 0 else Z.min fin len in
  let span := Z.max (to - from) 0 in
  firstn (Z.to_nat span) (skipn (Z.to_nat from) s).

Fixpoint starts_with (needle s : jsstring) : bool :=
  match needle, s with
  | [], _ => true
  | x :: needle', y :: s' => N.eqb x y && starts_with needle' s'
  | _ :: _, [] => false
  end.

Definition ends_with (needle s : jsstring) : bool :=
  starts_with (rev needle) (rev s).

Fixpoint includes (needle s : jsstring) : bool :=
  starts_with needle s
  || match s with
     | [] => false
     | _ :: tl => includes needle tl
     end.

(** ** Regular expressions

    A backtracking matcher in continuation-passing style, after the
    ECMAScript pattern semantics, for the operators the source uses:
    [^], [$], a literal code unit, concatenation, alternation and the
    greedy [+]. No flag but [g] is set, so [^] and [$] only match at the
    two ends of the input. *)

Inductive regex : Type :=
| Bol
| Eol
| Chr (c : code_unit)
| Seq (r1 r2 : regex)
| Alt (r1 r2 : regex)
| Plus (r : regex).

(** The matcher's state: the index of the next code unit, and the input
    from there on. *)
Record mstate : Type := MState { idx : nat; rest : jsstring }.

Definition cont := mstate -> option mstate.

(** RepeatMatcher once the minimum is reached: another iteration first
    (greedy), the continuation otherwise; an iteration that consumes
    nothing is rejected. [n] bounds the number of iterations, and the
    length of the remaining input is enough for it. *)
Fixpoint repeat_more (m : mstate -> cont -> option mstate) (k : cont)
    (n : nat) (y : mstate) : option mstate :=
  match n with
  | 0 => k y
  | S n' =>
      match m y (fun z => if idx z =? idx y then None
                          else repeat_more m k n' z) with
      | Some e => Some e
      | None => k y
      end
  end.

Fixpoint rmatch (r : regex) (x : mstate) (k : cont) : option mstate :=
  match r with
  | Bol => if idx x =? 0 then k x else None
  | Eol => match rest x with [] => k x | _ :: _ => None end
  | Chr c =>
      match rest x with
      | d :: tl => if N.eqb c d then k (MState (S (idx x)) tl) else None
      | [] => None
      end
  | Seq a b => rmatch a x (fun y => rmatch b y k)
  | Alt a b =>
      match rmatch a x k with
      | Some e => Some e
      | None => rmatch b x k
      end
  | Plus a =>
      rmatch a x (fun y => repeat_more (rmatch a) k (length (rest y)) y)
  end.

(** One attempt to match at the state's index. *)
Definition regex_exec (r : regex) (x : mstate) : option mstate :=
  rmatch r x Some.

Definition advance (x : mstate) (tl : jsstring) : mstate :=
  MState (S (idx x)) tl.

(** [String.prototype.replace] with a global regular expression and a
    string replacement without [$] patterns: every match, found from left
    to right, is replaced; after an empty match the search resumes one
    code unit further. Each step moves the index forward, so
    [S (length s)] steps are enough. *)
Fixpoint replace_from (fuel : nat) (r : regex) (by_ : jsstring)
    (x : mstate) : jsstring :=
  match fuel with
  | 0 => rest x
  | S fuel' =>
      match regex_exec r x with
      | Some y =>
          if idx y =? idx x
          then by_ ++ match rest x with
                      | [] => []
                      | c :: tl => c :: replace_from fuel' r by_ (advance x tl)
                      end
          else by_ ++ replace_from fuel' r by_ y
      | None =>
          match rest x with
          | [] => []
          | c :: tl => c :: replace_from fuel' r by_ (advance x tl)
          end
      end
  end.

Definition replace (r : regex) (by_ : jsstring) (s : jsstring) : jsstring :=
  replace_from (S (length s)) r by_ (MState 0 s).

(** ** JavaScript values and completions *)

Inductive jsval : Type :=
| JSUndefined
| JSNull
| JSBool (b : bool)
| JSString (s : jsstring).

Inductive jserror : Type := TypeError.

Inductive completion (A : Type) : Type :=
| Normal (a : A)
| Throw (e : jserror).
Arguments Throw {A} e.

Definition bind {A B} (c : completion A) (f : A -> completion B)
  : completion B :=
  match c with
  | Normal a => f a
  | Throw e => Throw e
  end.

Notation "x <- c ;; k" := (bind c (fun x => k))
  (at level 61, c at next level, right associativity).

(** ToBoolean. *)
Definition to_boolean (v : jsval) : bool :=
  match v with
  | JSUndefined | JSNull => false
  | JSBool b => b
  | JSString [] => false
  | JSString (_ :: _) => true
  end.

(** [a === b]. *)
Definition strict_eq (a b : jsval) : bool :=
  match a, b with
  | JSUndefined, JSUndefined => true
  | JSNull, JSNull => true
  | JSBool x, JSBool y => Bool.eqb x y
  | JSString x, JSString y => jsstring_eqb x y
  | _, _ => false
  end.

(** [base.trim()]: only a string has the method; looking it up on
    [undefined] or [null], or calling it on a boolean, throws. *)
Definition call_trim (base : jsval) : completion jsstring :=
  match base with
  | JSString s => Normal (trim s)
  | _ => Throw TypeError
  end.

(** [a || b] in a condition, with [b] evaluated only when [a] is falsy. *)
Definition or_else (a b : completion bool) : completion bool :=
  x <- a ;; if x then Normal true else b.

(** [env || ''] *)
Definition or_default (v d : jsval) : jsval :=
  if to_boolean v then v else d.

(** The source's regular expression, [/^\/+|\/+$/g]. *)
Definition edge_slashes : regex :=
  Alt (Seq Bol (Plus (Chr slash))) (Seq (Plus (Chr slash)) Eol).

(** ** frontend/src/config/router.js *)
Module Router.

(** [env] is the value of [import.meta.env.PROXY_PREFIX_PATH], as the
    client bundle sees it. *)
Definition basePath (env : jsval) : jsval :=
  or_default env (JSString (lit "")).

Definition normalizeRouterBase (base : jsval) : completion jsstring :=
  c <- or_else (Normal (negb (to_boolean base)))
         (or_else (t <- call_trim base ;;
                   Normal (strict_eq (JSString t) (JSString (lit ""))))
                  (Normal (strict_eq base (JSString (lit "/"))))) ;;
  if c then Normal (lit "/")
  else
    t <- call_trim base ;;
    let normalized := replace edge_slashes (lit "") t in
    if negb (to_boolean (JSString normalized)) then Normal (lit "/")
    else Normal (lit "/" ++ normalized ++ lit "/").

Definition ROUTER_BASE (env : jsval) : completion jsstring :=
  normalizeRouterBase (basePath env).

Definition normalizeRequestPrefix (base : jsval) : completion jsstring :=
  c <- or_else (Normal (negb (to_boolean base)))
         (or_else (t <- call_trim base ;;
                   Normal (strict_eq (JSString t) (JSString (lit ""))))
                  (Normal (strict_eq base (JSString (lit "/"))))) ;;
  if c then Normal (lit "")
  else
    t <- call_trim base ;;
    let normalized := replace edge_slashes (lit "") t in
    if negb (to_boolean (JSString normalized)) then Normal (lit "")
    else Normal (lit "/" ++ normalized).

Definition API_REQUEST_PREFIX (env : jsval) : completion jsstring :=
  normalizeRequestPrefix (basePath env).

End Router.

(** ** The Vite configuration *)
Module ViteConfig.

Definition normalizeBase (base : jsval) : completion jsstring :=
  c <- or_else (Normal (negb (to_boolean base)))
         (Normal (strict_eq base (JSString (lit "/")))) ;;
  if c then Normal (lit "/")
  else
    t <- call_trim base ;;
    let normalized := replace edge_slashes (lit "") t in
    if negb (to_boolean (JSString normalized)) then Normal (lit "/")
    else Normal (lit "/" ++ normalized ++ lit "/").

(** [env] is the value of [process.env.PROXY_PREFIX_PATH] in the build
    process; it is read apart from the one router.js reads. *)
Definition basePath (env : jsval) : completion jsstring :=
  normalizeBase (or_default env (JSString (lit ""))).

End ViteConfig.

(** ** The algorithm in the specification's words *)

(** "strip all leading [/] characters and all trailing [/] characters" *)
Definition strip_slashes (s : jsstring) : jsstring :=
  drop_while_end is_slash (drop_while is_slash s).

Definition is_empty (s : jsstring) : bool :=
  match s with [] => true | _ :: _ => false end.

(** "trim surrounding whitespace, strip ..., yielding core" *)
Definition spec_core (input : jsstring) : jsstring :=
  strip_slashes (trim input).

Definition spec_normalizeRouterBase (input : jsstring) : jsstring :=
  if is_empty input || is_empty (trim input) || jsstring_eqb input (lit "/")
  then lit "/"
  else
    let core := spec_core input in
    if is_empty core then lit "/" else lit "/" ++ core ++ lit "/".

Definition spec_normalizeRequestPrefix (input : jsstring) : jsstring :=
  let core := spec_core input in
  if is_empty input || is_empty (trim input) || jsstring_eqb input (lit "/")
     || is_empty core
  then lit ""
  else lit "/" ++ core.

(** The result as a function of the core alone. *)
Definition with_slashes (core : jsstring) : jsstring :=
  match core with
  | [] => lit "/"
  | _ :: _ => lit "/" ++ core ++ lit "/"
  end.

Definition with_leading_slash (core : jsstring) : jsstring :=
  match core with
  | [] => lit ""
  | _ :: _ => lit "/" ++ core
  end.

(** The code units of a string that are neither slashes nor whitespace,
    in order. *)
Definition payload (s : jsstring) : jsstring :=
  filter (fun c => negb (is_slash c || is_white_space c)) s.

(** No whitespace at the head of a string. *)
Definition head_not_space (s : jsstring) : bool :=
  match s with
  | [] => true
  | c :: _ => negb (is_white_space c)
  end.

(** The inputs the claims range over: a string, [null] or [undefined]. *)
Definition string_or_nullish (v : jsval) : bool :=
  match v with
  | JSUndefined | JSNull | JSString _ => true
  | JSBool _ => false
  end.

(** * Properties *)

(** ** Dropping from either end *)
Section DroppingFacts.
Variable A : Type.
Variable p : A -> bool.

Lemma drop_while_end_nil (l : list A) :
  drop_while_end p l = [] <-> forallb p l = true.
Proof.
  induction l as [|c tl IH]; simpl.
  - tauto.
  - destruct (drop_while_end p tl) as [|r0 r] eqn:E.
    + destruct (p c); simpl; [tauto|].
      split; discriminate.
    + split; [discriminate|].
      intros H. apply andb_true_iff in H. destruct H as [_ H].
      apply IH in H. discriminate.
Qed.

Lemma drop_while_end_cons (c : A) (tl : list A) :
  drop_while_end p (c :: tl)
  = if p c && forallb p tl then [] else c :: drop_while_end p tl.
Proof.
  simpl. destruct (drop_while_end p tl) as [|r0 r] eqn:E.
  - apply drop_while_end_nil in E. rewrite E, andb_true_r.
    destruct (p c); reflexivity.
  - destruct (forallb p tl) eqn:F.
    + apply drop_while_end_nil in F. congruence.
    + now rewrite andb_false_r.
Qed.

Lemma drop_while_length (l : list A) :
  length (drop_while p l) <= length l.
Proof.
  induction l as [|c tl IH]; simpl; [lia|].
  destruct (p c); simpl; lia.
Qed.

Lemma drop_while_head (l : list A) (c : A) (r : list A) :
  drop_while p l = c :: r -> p c = false.
Proof.
  induction l as [|d tl IH]; simpl; [discriminate|].
  destruct (p d) eqn:E; [exact IH|].
  intros H. injection H as -> _. exact E.
Qed.

Lemma drop_while_all (l : list A) :
  forallb p l = true -> drop_while p l = [].
Proof.
  induction l as [|c tl IH]; simpl; [reflexivity|].
  destruct (p c); simpl; [exact IH|discriminate].
Qed.

Lemma drop_while_split (l : list A) :
  exists a, l = a ++ drop_while p l /\ forallb p a = true.
Proof.
  induction l as [|c tl (a & Ha & Hp)]; simpl.
  - now exists [].
  - destruct (p c) eqn:E.
    + exists (c :: a). simpl. rewrite E, Hp. now rewrite <- Ha.
    + now exists [].
Qed.

Lemma drop_while_end_split (l : list A) :
  exists b, l = drop_while_end p l ++ b /\ forallb p b = true.
Proof.
  induction l as [|c tl (b & Hb & Hp)].
  - now exists [].
  - rewrite drop_while_end_cons.
    destruct (p c && forallb p tl) eqn:E.
    + exists (c :: tl). now split.
    + exists b. simpl. now rewrite <- Hb.
Qed.

Lemma drop_while_end_head (l : list A) (c : A) (r : list A) :
  drop_while_end p l = c :: r -> exists tl, l = c :: tl.
Proof.
  destruct l as [|d tl]; [discriminate|].
  rewrite drop_while_end_cons.
  destruct (p d && forallb p tl); [discriminate|].
  intros H. injection H as -> _. now exists tl.
Qed.

Lemma drop_while_app (a b : list A) :
  drop_while p (a ++ b)
  = if forallb p a then drop_while p b else drop_while p a ++ b.
Proof.
  induction a as [|c tl IH]; simpl; [reflexivity|].
  destruct (p c); simpl; [exact IH|reflexivity].
Qed.

Lemma forallb_rev (l : list A) : forallb p (rev l) = forallb p l.
Proof.
  induction l as [|c tl IH]; simpl; [reflexivity|].
  rewrite forallb_app, IH. simpl. rewrite andb_true_r. apply andb_comm.
Qed.

Lemma drop_while_end_rev (l : list A) :
  rev (drop_while_end p l) = drop_while p (rev l).
Proof.
  induction l as [|c tl IH].
  - reflexivity.
  - rewrite drop_while_end_cons. simpl rev.
    rewrite drop_while_app, forallb_rev, <- IH.
    destruct (forallb p tl) eqn:F; simpl.
    + rewrite andb_true_r. destruct (p c); [reflexivity|].
      simpl. apply drop_while_end_nil in F. now rewrite F.
    + now rewrite andb_false_r.
Qed.

Lemma drop_while_end_last (l r : list A) (c : A) :
  rev (drop_while_end p l) = c :: r -> p c = false.
Proof.
  rewrite drop_while_end_rev. apply drop_while_head.
Qed.

Lemma drop_while_fixed (l : list A) :
  match l with [] => true | c :: _ => negb (p c) end = true ->
  drop_while p l = l.
Proof.
  destruct l as [|c tl]; simpl; [reflexivity|].
  destruct (p c); [discriminate|reflexivity].
Qed.

Lemma drop_while_end_fixed (l : list A) :
  match rev l with [] => true | c :: _ => negb (p c) end = true ->
  drop_while_end p l = l.
Proof.
  intros H. apply drop_while_fixed in H.
  rewrite <- drop_while_end_rev in H.
  rewrite <- (rev_involutive (drop_while_end p l)), H.
  apply rev_involutive.
Qed.
End DroppingFacts.

(** ** What [/^\/+|\/+$/g] matches *)

Lemma is_slash_chr (d : code_unit) : N.eqb slash d = is_slash d.
Proof. unfold is_slash. apply N.eqb_sym. Qed.

Lemma repeat_more_step (m : mstate -> cont -> option mstate) (k : cont)
    (n : nat) (y : mstate) :
  repeat_more m k (S n) y
  = match m y (fun z => if idx z =? idx y then None
                        else repeat_more m k n z) with
    | Some e => Some e
    | None => k y
    end.
Proof. reflexivity. Qed.

Lemma rmatch_chr_cons (c d : code_unit) (i : nat) (tl : jsstring) (k : cont) :
  rmatch (Chr c) (MState i (d :: tl)) k
  = if N.eqb c d then k (MState (S i) tl) else None.
Proof. reflexivity. Qed.

Lemma rmatch_chr_nil (c : code_unit) (i : nat) (k : cont) :
  rmatch (Chr c) (MState i []) k = None.
Proof. reflexivity. Qed.

Lemma rmatch_bol (x : mstate) (k : cont) :
  rmatch Bol x k = if idx x =? 0 then k x else None.
Proof. reflexivity. Qed.

Lemma rmatch_seq (a b : regex) (x : mstate) (k : cont) :
  rmatch (Seq a b) x k = rmatch a x (fun y => rmatch b y k).
Proof. reflexivity. Qed.

Lemma rmatch_alt (a b : regex) (x : mstate) (k : cont) :
  rmatch (Alt a b) x k
  = match rmatch a x k with Some e => Some e | None => rmatch b x k end.
Proof. reflexivity. Qed.

Lemma rmatch_plus (a : regex) (x : mstate) (k : cont) :
  rmatch (Plus a) x k
  = rmatch a x (fun y => repeat_more (rmatch a) k (length (rest y)) y).
Proof. reflexivity. Qed.

(** Further iterations of [\/+] at the end of a pattern consume the whole
    run of slashes. *)
Lemma more_slashes_greedy (l : jsstring) :
  forall n i, length l <= n ->
  match repeat_more (rmatch (Chr slash)) Some n (MState i l) with
  | Some e => rest e = drop_while is_slash l /\ i <= idx e
  | None => False
  end.
Proof.
  induction l as [|d tl IH]; intros n i Hn.
  - destruct n; simpl; auto.
  - destruct n as [|n]; [simpl in Hn; lia|].
    simpl in Hn. rewrite repeat_more_step, rmatch_chr_cons, is_slash_chr.
    cbn [idx drop_while].
    destruct (is_slash d).
    + replace (S i =? i) with false by (symmetry; apply Nat.eqb_neq; lia).
      specialize (IH n (S i) ltac:(lia)).
      destruct (repeat_more (rmatch (Chr slash)) Some n (MState (S i) tl));
        [|contradiction].
      destruct IH; split; [assumption|lia].
    + simpl. auto.
Qed.

(** Followed by [$], they match only when nothing but slashes remains. *)
Lemma more_slashes_to_end (l : jsstring) :
  forall n i, length l <= n ->
  match repeat_more (rmatch (Chr slash)) (fun y => rmatch Eol y Some) n
          (MState i l) with
  | Some e => forallb is_slash l = true /\ rest e = [] /\ i <= idx e
  | None => l <> [] /\ forallb is_slash l = false
  end.
Proof.
  induction l as [|d tl IH]; intros n i Hn.
  - destruct n; simpl; auto.
  - destruct n as [|n]; [simpl in Hn; lia|].
    simpl in Hn. rewrite repeat_more_step, rmatch_chr_cons, is_slash_chr.
    cbn [idx forallb].
    destruct (is_slash d).
    + replace (S i =? i) with false by (symmetry; apply Nat.eqb_neq; lia).
      specialize (IH n (S i) ltac:(lia)).
      destruct (repeat_more (rmatch (Chr slash)) (fun y => rmatch Eol y Some)
                  n (MState (S i) tl)).
      * destruct IH as (H1 & H2 & H3). repeat split; auto; lia.
      * destruct IH as [_ IH]. split; [discriminate|exact IH].
    + split; [discriminate|reflexivity].
Qed.

(** At the start of the input the first alternative takes the leading
    run. *)
Lemma exec_at_start (l : jsstring) :
  match regex_exec edge_slashes (MState 0 l) with
  | Some e => exists d tl, l = d :: tl /\ is_slash d = true
                           /\ rest e = drop_while is_slash tl /\ 0 < idx e
  | None => drop_while is_slash l = l
  end.
Proof.
  unfold regex_exec, edge_slashes.
  rewrite rmatch_alt, !rmatch_seq, rmatch_bol, !rmatch_plus.
  destruct l as [|d tl]; [reflexivity|].
  cbn [idx Nat.eqb]. rewrite !rmatch_chr_cons, is_slash_chr.
  cbn [drop_while rest].
  destruct (is_slash d) eqn:E; [|reflexivity].
  pose proof (more_slashes_greedy tl (n := length tl) 1 (le_n _)) as H.
  destruct (repeat_more (rmatch (Chr slash)) Some (length tl) (MState 1 tl));
    [|contradiction].
  destruct H. exists d, tl. repeat split; auto.
Qed.

(** Anywhere else only the second alternative can match, and it takes a
    run of slashes that reaches the end of the input. *)
Lemma exec_inside (l : jsstring) (i : nat) :
  0 < i ->
  match regex_exec edge_slashes (MState i l) with
  | Some e => l <> [] /\ forallb is_slash l = true
              /\ rest e = [] /\ i < idx e
  | None => l = [] \/ forallb is_slash l = false
  end.
Proof.
  intros Hi. unfold regex_exec, edge_slashes.
  rewrite rmatch_alt, !rmatch_seq, rmatch_bol, !rmatch_plus.
  cbn [idx]. replace (i =? 0) with false
    by (symmetry; apply Nat.eqb_neq; lia).
  destruct l as [|d tl]; [left; reflexivity|].
  rewrite rmatch_chr_cons, is_slash_chr. cbn [rest forallb].
  destruct (is_slash d) eqn:E; [|right; reflexivity].
  pose proof (more_slashes_to_end tl (n := length tl) (S i) (le_n _)) as H.
  destruct (repeat_more (rmatch (Chr slash)) (fun y => rmatch Eol y Some)
              (length tl) (MState (S i) tl)).
  - destruct H as (H1 & H2 & H3).
    split; [discriminate|]. split; [exact H1|]. split; [exact H2|lia].
  - right. apply H.
Qed.

Lemma replace_from_end (fuel j : nat) :
  0 < j -> replace_from fuel edge_slashes [] (MState j []) = [].
Proof.
  intros Hj. destruct fuel as [|fuel]; [reflexivity|].
  cbn [replace_from]. pose proof (exec_inside [] Hj) as H.
  destruct (regex_exec edge_slashes (MState j [])).
  - destruct H as [H _]. now elim H.
  - reflexivity.
Qed.

(** Past the start, the replacement removes the trailing run. *)
Lemma replace_from_inside (l : jsstring) :
  forall fuel i, 0 < i -> length l < fuel ->
  replace_from fuel edge_slashes [] (MState i l) = drop_while_end is_slash l.
Proof.
  induction l as [|d tl IH]; intros fuel i Hi Hf;
    (destruct fuel as [|fuel]; [lia|]); cbn [replace_from].
  - pose proof (exec_inside [] Hi) as H.
    destruct (regex_exec edge_slashes (MState i [])).
    + destruct H as [H _]. now elim H.
    + reflexivity.
  - simpl in Hf. pose proof (exec_inside (d :: tl) Hi) as H.
    rewrite drop_while_end_cons.
    destruct (regex_exec edge_slashes (MState i (d :: tl))) as [e|].
    + destruct H as (_ & H1 & H2 & H3). cbn [idx].
      replace (idx e =? i) with false by (symmetry; apply Nat.eqb_neq; lia).
      simpl in H1. rewrite H1. destruct e as [j r]. simpl in H2, H3. subst r.
      simpl. apply replace_from_end. lia.
    + destruct H as [H|H]; [discriminate|].
      simpl in H. rewrite H. cbn [rest advance idx].
      f_equal. apply IH; lia.
Qed.

(** The replacement in the source is the stripping the specification
    describes. *)
Lemma replace_edge_slashes (s : jsstring) :
  replace edge_slashes (lit "") s = strip_slashes s.
Proof.
  unfold replace, strip_slashes. change (lit "") with (@nil code_unit).
  remember (length s) as n eqn:Hn.
  cbn [replace_from]. pose proof (exec_at_start s) as H.
  destruct (regex_exec edge_slashes (MState 0 s)) as [[j r]|].
  - destruct H as (d & tl & -> & Hd & Hr & Hj). cbn [rest idx] in Hr, Hj.
    cbn [idx app drop_while]. replace (j =? 0) with false
      by (symmetry; apply Nat.eqb_neq; lia).
    rewrite Hd, <- Hr.
    apply replace_from_inside; [lia|].
    subst r n. pose proof (drop_while_length is_slash tl). simpl. lia.
  - rewrite H. destruct s as [|d tl]; [reflexivity|].
    unfold advance. simpl rest. simpl idx. cbv beta iota.
    rewrite replace_from_inside by (subst n; simpl; lia).
    rewrite drop_while_end_cons.
    cbn [drop_while] in H. destruct (is_slash d) eqn:E; [|reflexivity].
    exfalso. pose proof (drop_while_length is_slash tl) as L.
    rewrite H in L. simpl in L. lia.
Qed.

(** ** The three normalisers on a string *)

Lemma jsstring_eqb_nil_r (t : jsstring) : jsstring_eqb t [] = is_empty t.
Proof. destruct t; reflexivity. Qed.

Lemma jsstring_eqb_eq (a b : jsstring) : jsstring_eqb a b = true <-> a = b.
Proof.
  revert b. induction a as [|x a IH]; intros [|y b]; simpl;
    try (split; (reflexivity || discriminate)).
  rewrite andb_true_iff, N.eqb_eq, IH.
  split; [intros [-> ->]; reflexivity | intros H; injection H; auto].
Qed.

(** The three early exits are cases of an empty core. *)
Lemma early_exit_core (s : jsstring) :
  is_empty s || is_empty (trim s) || jsstring_eqb s (lit "/") = true ->
  spec_core s = [].
Proof.
  unfold spec_core. rewrite !orb_true_iff. intros [[H|H]|H].
  - destruct s; [reflexivity|discriminate].
  - destruct (trim s); [reflexivity|discriminate].
  - apply jsstring_eqb_eq in H. subst s. reflexivity.
Qed.

(** Unfolds a normaliser at a string up to its two tests. *)
Ltac at_string s :=
  destruct s as [|c tl]; [reflexivity|];
  cbn [to_boolean negb or_else bind call_trim strict_eq];
  rewrite ?replace_edge_slashes, ?jsstring_eqb_nil_r;
  fold (spec_core (c :: tl)).

Lemma normalizeRouterBase_unfold (s : jsstring) :
  Router.normalizeRouterBase (JSString s)
  = Normal (if is_empty s || is_empty (trim s) || jsstring_eqb s (lit "/")
            then lit "/"
            else if is_empty (spec_core s) then lit "/"
                 else lit "/" ++ spec_core s ++ lit "/").
Proof.
  unfold Router.normalizeRouterBase. at_string s.
  destruct (is_empty (trim (c :: tl))); [reflexivity|].
  cbn [bind]. destruct (jsstring_eqb (c :: tl) (lit "/")); [reflexivity|].
  cbn [orb]. now destruct (spec_core (c :: tl)).
Qed.

Lemma normalizeRequestPrefix_unfold (s : jsstring) :
  Router.normalizeRequestPrefix (JSString s)
  = Normal (if is_empty s || is_empty (trim s) || jsstring_eqb s (lit "/")
            then lit ""
            else if is_empty (spec_core s) then lit ""
                 else lit "/" ++ spec_core s).
Proof.
  unfold Router.normalizeRequestPrefix. at_string s.
  destruct (is_empty (trim (c :: tl))); [reflexivity|].
  cbn [bind]. destruct (jsstring_eqb (c :: tl) (lit "/")); [reflexivity|].
  cbn [orb]. now destruct (spec_core (c :: tl)).
Qed.

Lemma normalizeBase_unfold (s : jsstring) :
  ViteConfig.normalizeBase (JSString s)
  = Normal (if is_empty s || jsstring_eqb s (lit "/")
            then lit "/"
            else if is_empty (spec_core s) then lit "/"
                 else lit "/" ++ spec_core s ++ lit "/").
Proof.
  unfold ViteConfig.normalizeBase. at_string s.
  destruct (jsstring_eqb (c :: tl) (lit "/")); [reflexivity|].
  cbn [orb]. now destruct (spec_core (c :: tl)).
Qed.

Lemma normalizeRouterBase_core (s : jsstring) :
  Router.normalizeRouterBase (JSString s)
  = Normal (with_slashes (spec_core s)).
Proof.
  rewrite normalizeRouterBase_unfold. f_equal.
  destruct (is_empty s || is_empty (trim s) || jsstring_eqb s (lit "/"))
    eqn:E.
  - now rewrite (early_exit_core s E).
  - now destruct (spec_core s).
Qed.

Lemma normalizeRequestPrefix_core (s : jsstring) :
  Router.normalizeRequestPrefix (JSString s)
  = Normal (with_leading_slash (spec_core s)).
Proof.
  rewrite normalizeRequestPrefix_unfold. f_equal.
  destruct (is_empty s || is_empty (trim s) || jsstring_eqb s (lit "/"))
    eqn:E.
  - now rewrite (early_exit_core s E).
  - now destruct (spec_core s).
Qed.

Lemma normalizeBase_core (s : jsstring) :
  ViteConfig.normalizeBase (JSString s) = Normal (with_slashes (spec_core s)).
Proof.
  rewrite normalizeBase_unfold. f_equal.
  destruct (is_empty s || jsstring_eqb s (lit "/")) eqn:E.
  - rewrite early_exit_core; [reflexivity|].
    apply orb_true_iff in E. destruct E as [E|E]; rewrite E;
      [reflexivity|apply orb_true_r].
  - now destruct (spec_core s).
Qed.

(** ** The core *)

Lemma core_head (s : jsstring) (c : code_unit) (r : jsstring) :
  spec_core s = c :: r -> is_slash c = false.
Proof.
  unfold spec_core, strip_slashes. intros H.
  destruct (drop_while_end_head _ _ H) as [tl Htl].
  exact (drop_while_head _ _ Htl).
Qed.

Lemma core_last (s : jsstring) (c : code_unit) (r : jsstring) :
  rev (spec_core s) = c :: r -> is_slash c = false.
Proof. unfold spec_core, strip_slashes. apply drop_while_end_last. Qed.

(** The core is cut out of the trimmed input: only slashes are dropped
    around it, and nothing inside it changes. *)
Lemma core_in_trim (s : jsstring) :
  exists pre post, trim s = pre ++ spec_core s ++ post
                   /\ forallb is_slash pre = true
                   /\ forallb is_slash post = true.
Proof.
  unfold spec_core, strip_slashes.
  destruct (drop_while_split is_slash (trim s)) as (pre & Hpre & Ppre).
  destruct (drop_while_end_split is_slash (drop_while is_slash (trim s)))
    as (post & Hpost & Ppost).
  exists pre, post. split; [|split; assumption].
  now rewrite <- Hpost.
Qed.

Lemma trim_in_input (s : jsstring) :
  exists pre post, s = pre ++ trim s ++ post.
Proof.
  unfold trim.
  destruct (drop_while_split is_white_space s) as (pre & Hpre & _).
  destruct (drop_while_end_split is_white_space (drop_while is_white_space s))
    as (post & Hpost & _).
  exists pre, post. now rewrite <- Hpost.
Qed.

Lemma core_in_input (s : jsstring) :
  exists pre post, s = pre ++ spec_core s ++ post.
Proof.
  destruct (trim_in_input s) as (a & b & Hs).
  destruct (core_in_trim s) as (a' & b' & Ht & _).
  exists (a ++ a'), (b' ++ b).
  rewrite Hs at 1. rewrite Ht. now rewrite !app_assoc.
Qed.

(** ** [startsWith], [endsWith] and [includes] for slashes *)

Lemma starts_with_slash (l : jsstring) :
  starts_with (lit "/") l
  = match l with [] => false | c :: _ => is_slash c end.
Proof.
  destruct l as [|c tl]; [reflexivity|].
  change (N.eqb slash c && true = is_slash c).
  now rewrite andb_true_r, is_slash_chr.
Qed.

Lemma ends_with_slash (l : jsstring) :
  ends_with (lit "/") l
  = match rev l with [] => false | c :: _ => is_slash c end.
Proof. unfold ends_with. apply starts_with_slash. Qed.

Lemma ends_with_slash_cons (c d : code_unit) (l : jsstring) :
  ends_with (lit "/") (c :: d :: l) = ends_with (lit "/") (d :: l).
Proof.
  rewrite !ends_with_slash. simpl rev.
  destruct (rev l) as [|e r]; reflexivity.
Qed.

Lemma includes_slashes_app (x y : jsstring) :
  includes (lit "//") (x ++ y)
  = includes (lit "//") x || includes (lit "//") y
    || ends_with (lit "/") x && starts_with (lit "/") y.
Proof.
  induction x as [|c x IH].
  - simpl app. change (includes (lit "//") []) with false.
    change (ends_with (lit "/") []) with false.
    cbn [orb andb]. now rewrite orb_false_r.
  - change (includes (lit "//") ((c :: x) ++ y))
      with (N.eqb slash c && starts_with (lit "/") (x ++ y)
            || includes (lit "//") (x ++ y)).
    change (includes (lit "//") (c :: x))
      with (N.eqb slash c && starts_with (lit "/") x
            || includes (lit "//") x).
    rewrite IH. destruct x as [|d x].
    + simpl app. rewrite (ends_with_slash [c]). simpl rev.
      rewrite is_slash_chr.
      change (includes (lit "//") []) with false.
      change (ends_with (lit "/") []) with false.
      change (starts_with (lit "/") []) with false.
      destruct (is_slash c), (starts_with (lit "/") y),
        (includes (lit "//") y); reflexivity.
    + rewrite ends_with_slash_cons.
      change (starts_with (lit "/") ((d :: x) ++ y))
        with (starts_with (lit "/") (d :: x)).
      destruct (N.eqb slash c), (starts_with (lit "/") (d :: x)),
        (includes (lit "//") (d :: x)), (includes (lit "//") y),
        (ends_with (lit "/") (d :: x) && starts_with (lit "/") y);
        reflexivity.
Qed.

Lemma includes_slashes_inside (pre x post : jsstring) :
  includes (lit "//") (pre ++ x ++ post) = false ->
  includes (lit "//") x = false.
Proof.
  rewrite !includes_slashes_app. intros H.
  destruct (includes (lit "//") x); [|reflexivity].
  rewrite <- H. simpl. now rewrite !orb_true_r.
Qed.

(** Shape of the two results, for a non-empty core. *)
Lemma with_slashes_shape (core : jsstring) :
  starts_with (lit "/") (with_slashes core) = true
  /\ ends_with (lit "/") (with_slashes core) = true.
Proof.
  destruct core as [|c r]; [split; reflexivity|].
  split; [reflexivity|].
  unfold with_slashes. rewrite ends_with_slash.
  change (lit "/" ++ (c :: r) ++ lit "/") with ((slash :: c :: r) ++ [slash]).
  now rewrite rev_app_distr.
Qed.

Lemma with_slashes_includes (s : jsstring) :
  includes (lit "//") (with_slashes (spec_core s))
  = includes (lit "//") (spec_core s).
Proof.
  destruct (spec_core s) as [|c r] eqn:E; [reflexivity|].
  unfold with_slashes. rewrite !includes_slashes_app.
  pose proof (core_head s E) as Hh.
  change (includes (lit "//") (lit "/")) with false.
  change (starts_with (lit "/") (lit "/")) with true.
  change (ends_with (lit "/") (lit "/")) with true.
  change (starts_with (lit "/") ((c :: r) ++ lit "/"))
    with (starts_with (lit "/") (c :: r)).
  rewrite (starts_with_slash (c :: r)), Hh, (ends_with_slash (c :: r)).
  cbn [orb andb]. rewrite andb_true_r, !orb_false_r.
  destruct (rev (c :: r)) as [|d q] eqn:R.
  - now rewrite orb_false_r.
  - rewrite <- E in R. rewrite (core_last s R).
    now rewrite orb_false_r.
Qed.

Lemma with_slashes_inj (a b : jsstring) :
  with_slashes a = with_slashes b -> a = b.
Proof.
  destruct a as [|x a], b as [|y b]; unfold with_slashes; simpl.
  - reflexivity.
  - intros H. injection H as H. destruct b; discriminate.
  - intros H. injection H as H. destruct a; discriminate.
  - intros H. injection H as H1 H2. subst y.
    apply app_inv_tail in H2. now subst b.
Qed.

(** ** [slice(1, -1)] *)

Lemma slice_inner (a b : code_unit) (core : jsstring) :
  slice (a :: core ++ [b]) 1 (-1) = core.
Proof.
  unfold slice. change (1 <? 0)%Z with false. change (-1 <? 0)%Z with true.
  cbv beta iota zeta.
  assert (L : length (a :: core ++ [b]) = S (S (length core)))
    by (simpl; rewrite length_app; simpl; lia).
  rewrite L.
  replace (Z.to_nat (Z.min 1 (Z.of_nat (S (S (length core)))))) with 1 by lia.
  replace (Z.to_nat _) with (length core) by lia.
  simpl skipn. rewrite firstn_app, firstn_all, Nat.sub_diag. simpl.
  apply app_nil_r.
Qed.

Lemma slice_with_slashes (core : jsstring) :
  slice (with_slashes core) 1 (-1) = core.
Proof.
  destruct core as [|c r]; [reflexivity|].
  apply (slice_inner slash slash (c :: r)).
Qed.

(** ** Stripping again *)

Section Lengths.
Variable A : Type.
Variable p : A -> bool.

Lemma drop_while_end_length (l : list A) :
  length (drop_while_end p l) <= length l.
Proof.
  destruct (drop_while_end_split p l) as (b & Hb & _).
  rewrite Hb at 2. rewrite length_app. lia.
Qed.

Lemma drop_while_same_length (l : list A) :
  length (drop_while p l) = length l -> drop_while p l = l.
Proof.
  destruct (drop_while_split p l) as (a & Ha & _). intros H.
  rewrite Ha in H at 2. rewrite length_app in H.
  destruct a; [exact (eq_sym Ha)|simpl in H; lia].
Qed.

Lemma drop_while_end_same_length (l : list A) :
  length (drop_while_end p l) = length l -> drop_while_end p l = l.
Proof.
  destruct (drop_while_end_split p l) as (b & Hb & _). intros H.
  rewrite Hb in H at 2. rewrite length_app in H.
  destruct b; [|simpl in H; lia].
  rewrite app_nil_r in Hb. exact (eq_sym Hb).
Qed.
End Lengths.

Lemma strip_core_fixed (x : jsstring) :
  strip_slashes (spec_core x) = spec_core x.
Proof.
  unfold strip_slashes.
  rewrite (drop_while_fixed is_slash (spec_core x)).
  - apply drop_while_end_fixed.
    destruct (rev (spec_core x)) as [|c r] eqn:E; [reflexivity|].
    now rewrite (core_last x E).
  - destruct (spec_core x) as [|c r] eqn:E; [reflexivity|].
    now rewrite (core_head x E).
Qed.

Lemma strip_trim_fixed (c : jsstring) :
  strip_slashes (trim c) = c -> trim c = c.
Proof.
  intros H.
  assert (L1 : length (strip_slashes (trim c)) <= length (trim c)).
  { unfold strip_slashes.
    pose proof (drop_while_end_length is_slash (drop_while is_slash (trim c))).
    pose proof (drop_while_length is_slash (trim c)). lia. }
  rewrite H in L1. unfold trim in *.
  pose proof (drop_while_end_length is_white_space
                (drop_while is_white_space c)) as L2.
  pose proof (drop_while_length is_white_space c) as L3.
  assert (E : drop_while is_white_space c = c)
    by (apply drop_while_same_length; lia).
  rewrite E in *. apply drop_while_end_same_length. lia.
Qed.

(** * The claims *)

(** C1, as stated, fails: the input "a//b" has a doubled slash inside its
    core, and [normalizeRouterBase] keeps it. *)
Lemma router_base_keeps_inner_double_slash :
  Router.normalizeRouterBase (JSString (lit "a//b")) = Normal (lit "/a//b/")
  /\ includes (lit "//") (lit "/a//b/") = true.
Proof. split; reflexivity. Qed.

(** C1 (amended): for every string [s], with core the trimmed input
    without its leading and trailing slashes, [normalizeRouterBase s]
    returns a string that starts with [/] and ends with [/]: it is [/]
    when the core is empty, and otherwise [/ + core + /], where the core
    neither starts nor ends with [/]. Doubled slashes at the ends of the
    input are removed and those inside the core are kept: the result
    contains [//] exactly when the core does, so never when [s] has
    none. *)
Theorem router_base_slashes (s : jsstring) :
  exists r,
    Router.normalizeRouterBase (JSString s) = Normal r
    /\ starts_with (lit "/") r = true
    /\ ends_with (lit "/") r = true
    /\ (spec_core s = lit "" /\ r = lit "/"
        \/ spec_core s <> lit ""
           /\ r = lit "/" ++ spec_core s ++ lit "/"
           /\ starts_with (lit "/") (spec_core s) = false
           /\ ends_with (lit "/") (spec_core s) = false)
    /\ includes (lit "//") r = includes (lit "//") (spec_core s)
    /\ (includes (lit "//") s = false -> includes (lit "//") r = false).
Proof.
  exists (with_slashes (spec_core s)).
  split; [apply normalizeRouterBase_core|].
  destruct (with_slashes_shape (spec_core s)) as [Hs He].
  split; [exact Hs|]. split; [exact He|].
  split; [|split].
  - destruct (spec_core s) as [|c r] eqn:E; [left; split; reflexivity|].
    right. split; [discriminate|].
    split; [reflexivity|]. rewrite starts_with_slash, ends_with_slash.
    split; [exact (core_head s E)|].
    destruct (rev (c :: r)) as [|d q] eqn:R; [reflexivity|].
    rewrite <- E in R. exact (core_last s R).
  - apply with_slashes_includes.
  - intros H. rewrite with_slashes_includes.
    destruct (core_in_input s) as (pre & post & Hs').
    rewrite Hs' in H. exact (includes_slashes_inside _ _ _ H).
Qed.

Lemma router_base_slashes_witness :
  (exists r,
     Router.normalizeRouterBase (JSString (lit " /v2/api/ ")) = Normal r
     /\ starts_with (lit "/") r = true
     /\ ends_with (lit "/") r = true
     /\ includes (lit "//") r = false)
  /\ (exists r,
        Router.normalizeRouterBase (JSString (lit "//app//")) = Normal r
        /\ includes (lit "//") (lit "//app//") = true
        /\ includes (lit "//") r = false).
Proof.
  split.
  - destruct (router_base_slashes (lit " /v2/api/ "))
      as (r & H & Hs & He & _ & _ & Hi).
    exists r. split; [exact H|]. split; [exact Hs|]. split; [exact He|].
    apply Hi. reflexivity.
  - destruct (router_base_slashes (lit "//app//"))
      as (r & H & _ & _ & _ & Hc & _).
    exists r. split; [exact H|]. split; [reflexivity|].
    rewrite Hc. reflexivity.
Defined.

(** C2: on every input, a string as well as [null] and [undefined], the
    Vite configuration's [normalizeBase] returns what
    [normalizeRouterBase] returns. *)
Theorem normalizeBase_agrees (v : jsval) :
  ViteConfig.normalizeBase v = Router.normalizeRouterBase v.
Proof.
  destruct v as [| |[|]|s]; try reflexivity.
  now rewrite normalizeBase_core, normalizeRouterBase_core.
Qed.

(** C3: [normalizeRouterBase] computes the algorithm of the specification:
    [/] for an input that is empty, trims to empty or is [/]; otherwise
    the core is the trimmed input without its leading and trailing
    slashes, and the result is [/] for an empty core and [/ + core + /]
    otherwise. The core is a piece of the trimmed input with only slashes
    before and after it, so the slashes inside it are kept. *)
Theorem normalizeRouterBase_refines_spec (s : jsstring) :
  Router.normalizeRouterBase (JSString s)
  = Normal (spec_normalizeRouterBase s)
  /\ exists pre post, trim s = pre ++ spec_core s ++ post
                      /\ forallb is_slash pre = true
                      /\ forallb is_slash post = true.
Proof.
  split; [|apply core_in_trim].
  rewrite normalizeRouterBase_unfold. reflexivity.
Qed.

(** C4: [normalizeRequestPrefix] computes the algorithm of the
    specification: the same core; the empty string for an input that is
    empty, whitespace only or [/], or whose core is empty; [/ + core]
    otherwise. *)
Theorem normalizeRequestPrefix_refines_spec (s : jsstring) :
  Router.normalizeRequestPrefix (JSString s)
  = Normal (spec_normalizeRequestPrefix s).
Proof.
  rewrite normalizeRequestPrefix_unfold. unfold spec_normalizeRequestPrefix.
  f_equal.
  destruct (is_empty s || is_empty (trim s) || jsstring_eqb s (lit "/"));
    reflexivity.
Qed.

(** C5: on a string, [null] or [undefined], each normaliser returns a
    string and does not throw. *)
Theorem normalisers_total (v : jsval) :
  string_or_nullish v = true ->
  (exists r, Router.normalizeRouterBase v = Normal r)
  /\ (exists r, Router.normalizeRequestPrefix v = Normal r)
  /\ (exists r, ViteConfig.normalizeBase v = Normal r).
Proof.
  destruct v as [| |b|s]; intros H; try discriminate.
  - repeat split; eexists; reflexivity.
  - repeat split; eexists; reflexivity.
  - repeat split; eexists;
      [apply normalizeRouterBase_core | apply normalizeRequestPrefix_core
      | apply normalizeBase_core].
Qed.

Lemma normalisers_total_witness :
  (exists r, Router.normalizeRouterBase (JSString (lit "app")) = Normal r)
  /\ (exists r, Router.normalizeRequestPrefix (JSString (lit "app")) = Normal r)
  /\ (exists r, ViteConfig.normalizeBase (JSString (lit "app")) = Normal r).
Proof. apply (normalisers_total (JSString (lit "app"))). reflexivity. Defined.

(** The model does have a throwing path: a value without [trim]. *)
Example normalizeRouterBase_of_true_throws :
  Router.normalizeRouterBase (JSBool true) = Throw TypeError.
Proof. reflexivity. Qed.

(** C6: the empty string and [/] give the same results: [/] as the router
    base and the empty string as the request prefix. *)
Theorem empty_and_root_alike :
  Router.normalizeRouterBase (JSString (lit "")) = Normal (lit "/")
  /\ Router.normalizeRouterBase (JSString (lit "/")) = Normal (lit "/")
  /\ Router.normalizeRequestPrefix (JSString (lit "")) = Normal (lit "")
  /\ Router.normalizeRequestPrefix (JSString (lit "/")) = Normal (lit "").
Proof. repeat split; reflexivity. Qed.

(** C7: for every string [s], [normalizeRequestPrefix s] returns a string
    that does not end with [/], and that starts with [/] unless it is
    empty. *)
Theorem request_prefix_slashes (s : jsstring) :
  exists r,
    Router.normalizeRequestPrefix (JSString s) = Normal r
    /\ ends_with (lit "/") r = false
    /\ (r <> lit "" -> starts_with (lit "/") r = true).
Proof.
  exists (with_leading_slash (spec_core s)).
  split; [apply normalizeRequestPrefix_core|].
  destruct (spec_core s) as [|c r] eqn:E.
  - split; [reflexivity|]. intros H. now elim H.
  - split; [|reflexivity].
    unfold with_leading_slash. rewrite ends_with_slash.
    change (lit "/" ++ c :: r) with ([slash] ++ c :: r).
    rewrite rev_app_distr.
    destruct (rev (c :: r)) as [|d q] eqn:R.
    + apply (f_equal (@length _)) in R. rewrite length_rev in R.
      discriminate.
    + rewrite <- E in R. exact (core_last s R).
Qed.

Lemma request_prefix_slashes_witness :
  exists r,
    Router.normalizeRequestPrefix (JSString (lit "/easy-mcp/")) = Normal r
    /\ ends_with (lit "/") r = false
    /\ starts_with (lit "/") r = true.
Proof.
  destruct (request_prefix_slashes (lit "/easy-mcp/")) as (r & H & He & Hs).
  exists r. repeat split; try assumption.
  apply Hs. vm_compute in H. injection H as <-. discriminate.
Defined.

(** C8, as stated, fails: the core of "/ a /" is " a ", which the second
    pass trims, so the second result differs from the first. *)
Lemma restripping_changes_spaced_core :
  Router.normalizeRouterBase (JSString (lit "/ a /")) = Normal (lit "/ a /")
  /\ Router.normalizeRouterBase (JSString (slice (lit "/ a /") 1 (-1)))
     = Normal (lit "/a/")
  /\ lit "/a/" <> lit "/ a /".
Proof. repeat split; try reflexivity. discriminate. Qed.

(** C8 (amended): for every string [x], with [r = normalizeRouterBase x],
    [normalizeRouterBase (r.slice(1, -1))] is [r] again exactly when the
    core [r.slice(1, -1)] has no whitespace at either end (when trimming
    leaves it unchanged). *)
Theorem restripping_stable_iff (x : jsstring) :
  exists r,
    Router.normalizeRouterBase (JSString x) = Normal r
    /\ (Router.normalizeRouterBase (JSString (slice r 1 (-1))) = Normal r
        <-> trim (slice r 1 (-1)) = slice r 1 (-1)).
Proof.
  exists (with_slashes (spec_core x)).
  split; [apply normalizeRouterBase_core|].
  rewrite slice_with_slashes, normalizeRouterBase_core.
  split.
  - intros H. injection H as H. apply with_slashes_inj in H.
    apply strip_trim_fixed. exact H.
  - intros H. f_equal. f_equal.
    unfold spec_core at 1. rewrite H. apply strip_core_fixed.
Qed.

Lemma restripping_stable_iff_witness :
  exists r,
    Router.normalizeRouterBase (JSString (lit " //app/v2/ ")) = Normal r
    /\ Router.normalizeRouterBase (JSString (slice r 1 (-1))) = Normal r.
Proof.
  destruct (restripping_stable_iff (lit " //app/v2/ ")) as (r & H & Hiff).
  exists r. split; [exact H|].
  apply Hiff. vm_compute in H. injection H as <-. reflexivity.
Defined.

(** C9: the concrete cases of the specification. A missing variable
    reaches the functions as the empty string, through [basePath]. *)
Theorem concrete_cases :
  (Router.normalizeRouterBase (JSString (lit "/easy-mcp/"))
   = Normal (lit "/easy-mcp/")
   /\ Router.normalizeRequestPrefix (JSString (lit "/easy-mcp/"))
      = Normal (lit "/easy-mcp"))
  /\ (Router.normalizeRouterBase (JSString (lit "app")) = Normal (lit "/app/")
      /\ Router.normalizeRequestPrefix (JSString (lit "app"))
         = Normal (lit "/app"))
  /\ (Router.normalizeRouterBase (JSString (lit "///")) = Normal (lit "/")
      /\ Router.normalizeRequestPrefix (JSString (lit "///"))
         = Normal (lit ""))
  /\ (Router.normalizeRouterBase (JSString (lit "  /v2/api/  "))
      = Normal (lit "/v2/api/")
      /\ Router.normalizeRequestPrefix (JSString (lit "  /v2/api/  "))
         = Normal (lit "/v2/api"))
  /\ (Router.normalizeRouterBase JSUndefined = Normal (lit "/")
      /\ Router.normalizeRequestPrefix JSUndefined = Normal (lit ""))
  /\ (Router.ROUTER_BASE JSUndefined = Normal (lit "/")
      /\ Router.API_REQUEST_PREFIX JSUndefined = Normal (lit "")).
Proof. repeat split; vm_compute; reflexivity. Qed.

(** C10: on a string, [null] or [undefined], the router base is the
    request prefix followed by one [/]. *)
Theorem router_base_is_prefix_and_slash (v : jsval) :
  string_or_nullish v = true ->
  exists p,
    Router.normalizeRequestPrefix v = Normal p
    /\ Router.normalizeRouterBase v = Normal (p ++ lit "/").
Proof.
  destruct v as [| |b|s]; intros H; try discriminate.
  - exists (lit ""). split; reflexivity.
  - exists (lit ""). split; reflexivity.
  - exists (with_leading_slash (spec_core s)).
    split; [apply normalizeRequestPrefix_core|].
    rewrite normalizeRouterBase_core. f_equal.
    destruct (spec_core s); reflexivity.
Qed.

Lemma router_base_is_prefix_and_slash_witness :
  exists p,
    Router.normalizeRequestPrefix (JSString (lit "/a//b/")) = Normal p
    /\ Router.normalizeRouterBase (JSString (lit "/a//b/"))
       = Normal (p ++ lit "/").
Proof.
  apply (router_base_is_prefix_and_slash (JSString (lit "/a//b/"))).
  reflexivity.
Defined.

(** * Further properties of the normalisers *)

(** ** Padding that the two passes remove *)
Section Padding.
Variable A : Type.
Variable p : A -> bool.

Lemma drop_while_end_app_all (x b : list A) :
  forallb p b = true -> drop_while_end p (x ++ b) = drop_while_end p x.
Proof.
  intros Hb. induction x as [|c x IH].
  - simpl. now apply drop_while_end_nil.
  - simpl app. rewrite !drop_while_end_cons, IH, forallb_app, Hb.
    now rewrite andb_true_r.
Qed.

Lemma drop_both_pad (a s b : list A) :
  forallb p a = true -> forallb p b = true ->
  drop_while_end p (drop_while p (a ++ s ++ b))
  = drop_while_end p (drop_while p s).
Proof.
  intros Ha Hb. rewrite drop_while_app, Ha, drop_while_app.
  destruct (forallb p s) eqn:F.
  - now rewrite (drop_while_all p b Hb), (drop_while_all p s F).
  - now apply drop_while_end_app_all.
Qed.

Lemma drop_both_nil (l : list A) :
  drop_while_end p (drop_while p l) = [] <-> forallb p l = true.
Proof.
  split.
  - intros H. apply drop_while_end_nil in H.
    destruct (drop_while_split p l) as (a & Ha & Pa).
    destruct (drop_while p l) as [|c r] eqn:E.
    + rewrite Ha, app_nil_r. exact Pa.
    + pose proof (drop_while_head p l E) as Hc.
      simpl in H. rewrite Hc in H. discriminate.
  - intros H. now rewrite (drop_while_all p l H).
Qed.
End Padding.

Lemma slash_not_space (c : code_unit) :
  is_slash c = true -> is_white_space c = false.
Proof.
  unfold is_slash. intros H. apply N.eqb_eq in H. now subst c.
Qed.

Lemma trim_pad (a s b : jsstring) :
  forallb is_white_space a = true -> forallb is_white_space b = true ->
  trim (a ++ s ++ b) = trim s.
Proof. apply drop_both_pad. Qed.

Lemma strip_pad (a s b : jsstring) :
  forallb is_slash a = true -> forallb is_slash b = true ->
  strip_slashes (a ++ s ++ b) = strip_slashes s.
Proof. apply drop_both_pad. Qed.

Lemma strip_nil (t : jsstring) :
  strip_slashes t = [] <-> forallb is_slash t = true.
Proof. apply drop_both_nil. Qed.

(** ** Strings that [trim] leaves alone *)

Lemma head_not_space_fixed (l : jsstring) :
  drop_while is_white_space l = l <-> head_not_space l = true.
Proof.
  split; [|apply drop_while_fixed].
  destruct l as [|c tl]; [reflexivity|]. simpl.
  destruct (is_white_space c); [|reflexivity].
  intros H. pose proof (drop_while_length is_white_space tl) as L.
  rewrite H in L. simpl in L. lia.
Qed.

Lemma last_not_space_fixed (l : jsstring) :
  drop_while_end is_white_space l = l <-> head_not_space (rev l) = true.
Proof.
  split; [|apply drop_while_end_fixed].
  intros H. apply head_not_space_fixed.
  rewrite <- drop_while_end_rev. now rewrite H.
Qed.

Lemma trim_fixed_parts (c : jsstring) :
  trim c = c <->
  head_not_space c = true /\ head_not_space (rev c) = true.
Proof.
  rewrite <- head_not_space_fixed, <- last_not_space_fixed.
  unfold trim. split.
  - intros H.
    pose proof (drop_while_end_length is_white_space
                  (drop_while is_white_space c)) as L2.
    pose proof (drop_while_length is_white_space c) as L3.
    rewrite H in L2.
    assert (E : drop_while is_white_space c = c)
      by (apply drop_while_same_length; lia).
    split; [exact E|]. now rewrite E in H.
  - intros [H1 H2]. now rewrite H1.
Qed.

Lemma head_not_space_pad (a s b : jsstring) :
  forallb is_slash a = true -> forallb is_slash b = true ->
  head_not_space s = true -> head_not_space (a ++ s ++ b) = true.
Proof.
  intros Ha Hb Hs. destruct a as [|c a].
  - destruct s as [|c s]; [|exact Hs].
    destruct b as [|c b]; [reflexivity|].
    simpl in *. apply andb_true_iff in Hb. destruct Hb as [Hc _].
    now rewrite (slash_not_space c Hc).
  - simpl in *. apply andb_true_iff in Ha. destruct Ha as [Hc _].
    now rewrite (slash_not_space c Hc).
Qed.

Lemma trim_fixed_pad (a s b : jsstring) :
  forallb is_slash a = true -> forallb is_slash b = true ->
  trim s = s -> trim (a ++ s ++ b) = a ++ s ++ b.
Proof.
  intros Ha Hb Hs. apply trim_fixed_parts in Hs. destruct Hs as [H1 H2].
  apply trim_fixed_parts. split.
  - now apply head_not_space_pad.
  - rewrite !rev_app_distr, <- app_assoc.
    apply head_not_space_pad; [now rewrite forallb_rev ..|exact H2].
Qed.

(** ** The core of a result *)

Lemma trim_with_slashes (c : jsstring) :
  trim (with_slashes c) = with_slashes c.
Proof.
  destruct c as [|x c]; [reflexivity|].
  apply trim_fixed_parts. split; [reflexivity|].
  change (with_slashes (x :: c)) with ((slash :: x :: c) ++ [slash]).
  now rewrite rev_app_distr.
Qed.

Lemma core_with_slashes (x : jsstring) :
  spec_core (with_slashes (spec_core x)) = spec_core x.
Proof.
  unfold spec_core at 1. rewrite trim_with_slashes.
  destruct (spec_core x) as [|c r] eqn:E; [reflexivity|].
  change (with_slashes (c :: r)) with ([slash] ++ (c :: r) ++ [slash]).
  rewrite strip_pad by reflexivity.
  rewrite <- E. apply strip_core_fixed.
Qed.

Lemma with_leading_slash_inj (a b : jsstring) :
  with_leading_slash a = with_leading_slash b -> a = b.
Proof.
  destruct a as [|x a], b as [|y b]; simpl; intros H;
    try reflexivity; try discriminate.
  now injection H as -> ->.
Qed.

Lemma with_leading_slash_end (s : jsstring) :
  ends_with (lit "/") (with_leading_slash (spec_core s)) = false.
Proof.
  destruct (spec_core s) as [|c r] eqn:E; [reflexivity|].
  unfold with_leading_slash. rewrite ends_with_slash.
  change (lit "/" ++ c :: r) with ([slash] ++ c :: r).
  rewrite rev_app_distr.
  destruct (rev (c :: r)) as [|d q] eqn:R.
  - apply (f_equal (@length _)) in R. rewrite length_rev in R. discriminate.
  - rewrite <- E in R. exact (core_last s R).
Qed.

Lemma with_leading_slash_includes (s : jsstring) :
  includes (lit "//") (with_leading_slash (spec_core s))
  = includes (lit "//") (spec_core s).
Proof.
  destruct (spec_core s) as [|c r] eqn:E; [reflexivity|].
  unfold with_leading_slash. rewrite includes_slashes_app.
  change (includes (lit "//") (lit "/")) with false.
  change (ends_with (lit "/") (lit "/")) with true.
  rewrite (starts_with_slash (c :: r)), (core_head s E).
  cbn [orb andb]. apply orb_false_r.
Qed.

(** ** What the normalisers keep *)

Lemma payload_app (a b : jsstring) : payload (a ++ b) = payload a ++ payload b.
Proof. apply filter_app. Qed.

Lemma payload_spaces (a : jsstring) :
  forallb is_white_space a = true -> payload a = [].
Proof.
  induction a as [|c a IH]; [reflexivity|]. simpl.
  intros H. apply andb_true_iff in H. destruct H as [Hc Ha].
  rewrite Hc, orb_true_r. simpl. now apply IH.
Qed.

Lemma payload_slashes (a : jsstring) :
  forallb is_slash a = true -> payload a = [].
Proof.
  induction a as [|c a IH]; [reflexivity|]. simpl.
  intros H. apply andb_true_iff in H. destruct H as [Hc Ha].
  rewrite Hc. simpl. now apply IH.
Qed.

Lemma trim_in_input_spaces (s : jsstring) :
  exists pre post, s = pre ++ trim s ++ post
                   /\ forallb is_white_space pre = true
                   /\ forallb is_white_space post = true.
Proof.
  unfold trim.
  destruct (drop_while_split is_white_space s) as (pre & Hpre & Ppre).
  destruct (drop_while_end_split is_white_space (drop_while is_white_space s))
    as (post & Hpost & Ppost).
  exists pre, post. split; [|split; assumption]. now rewrite <- Hpost.
Qed.

Lemma payload_core (s : jsstring) : payload (spec_core s) = payload s.
Proof.
  destruct (trim_in_input_spaces s) as (a & b & Hs & Ha & Hb).
  destruct (core_in_trim s) as (a' & b' & Ht & Ha' & Hb').
  rewrite Hs at 2. rewrite Ht, !payload_app.
  rewrite (payload_spaces a Ha), (payload_spaces b Hb),
    (payload_slashes a' Ha'), (payload_slashes b' Hb').
  simpl. now rewrite !app_nil_r.
Qed.

Lemma payload_with_slashes (c : jsstring) : payload (with_slashes c) = payload c.
Proof.
  destruct c as [|x c]; [reflexivity|].
  change (with_slashes (x :: c)) with ([slash] ++ (x :: c) ++ [slash]).
  rewrite !payload_app. change (payload [slash]) with (@nil code_unit).
  simpl app. apply app_nil_r.
Qed.

Lemma payload_with_leading_slash (c : jsstring) :
  payload (with_leading_slash c) = payload c.
Proof. destruct c as [|x c]; reflexivity. Qed.


Lemma strip_slashes_length (t : jsstring) :
  length (strip_slashes t) <= length t.
Proof.
  unfold strip_slashes.
  pose proof (drop_while_end_length is_slash (drop_while is_slash t)).
  pose proof (drop_while_length is_slash t). lia.
Qed.

Lemma trim_after_slash (l : jsstring) :
  trim (slash :: l) = slash :: drop_while_end is_white_space l
  /\ drop_while_end is_white_space (slash :: l)
     = slash :: drop_while_end is_white_space l.
Proof.
  unfold trim. change (drop_while is_white_space (slash :: l)) with (slash :: l).
  rewrite drop_while_end_cons. split; reflexivity.
Qed.

(** ** The exported constants *)




(** ** Normalising a result again *)

(** X2: a router base is a fixed point: [normalizeRouterBase], and the
    Vite [normalizeBase], applied to a result of [normalizeRouterBase]
    return it unchanged. *)
Theorem router_base_idempotent (x : jsstring) :
  exists r,
    Router.normalizeRouterBase (JSString x) = Normal r
    /\ Router.normalizeRouterBase (JSString r) = Normal r
    /\ ViteConfig.normalizeBase (JSString r) = Normal r.
Proof.
  exists (with_slashes (spec_core x)).
  rewrite !normalizeRouterBase_core, normalizeBase_core, core_with_slashes.
  repeat split.
Qed.

(** X3: the request prefix can be computed from the router base instead
    of the raw input: [normalizeRequestPrefix (normalizeRouterBase x)] is
    [normalizeRequestPrefix x]. *)
Theorem request_prefix_of_router_base (x : jsstring) :
  exists r p,
    Router.normalizeRouterBase (JSString x) = Normal r
    /\ Router.normalizeRequestPrefix (JSString x) = Normal p
    /\ Router.normalizeRequestPrefix (JSString r) = Normal p.
Proof.
  exists (with_slashes (spec_core x)), (with_leading_slash (spec_core x)).
  rewrite normalizeRouterBase_core, !normalizeRequestPrefix_core,
    core_with_slashes.
  repeat split.
Qed.

(** X10: a request prefix is a fixed point of [normalizeRequestPrefix]
    exactly when it has no whitespace at its end; the slashes stripped
    from the input can leave some there (the input "/a /" gives "/a ",
    which normalises to "/a"). *)
Theorem request_prefix_idempotent_iff (x : jsstring) :
  exists p,
    Router.normalizeRequestPrefix (JSString x) = Normal p
    /\ (Router.normalizeRequestPrefix (JSString p) = Normal p
        <-> drop_while_end is_white_space p = p).
Proof.
  exists (with_leading_slash (spec_core x)).
  split; [apply normalizeRequestPrefix_core|].
  rewrite normalizeRequestPrefix_core.
  destruct (spec_core x) as [|c r] eqn:E; [split; reflexivity|].
  change (with_leading_slash (c :: r)) with (slash :: c :: r).
  destruct (trim_after_slash (c :: r)) as [Ht Hd].
  assert (Hc : spec_core (slash :: c :: r)
               = strip_slashes (drop_while_end is_white_space (c :: r))).
  { unfold spec_core. rewrite Ht.
    pose proof (strip_pad [slash] (drop_while_end is_white_space (c :: r)) []
                  eq_refl eq_refl) as P.
    rewrite app_nil_r in P. exact P. }
  rewrite Hc, Hd. split.
  - intros H. injection H as H.
    apply (with_leading_slash_inj _ (c :: r)) in H.
    change (strip_slashes (drop_while_end is_white_space (c :: r)) = c :: r)
      in H.
    f_equal. apply drop_while_end_same_length.
    pose proof (strip_slashes_length
                  (drop_while_end is_white_space (c :: r))) as L1.
    pose proof (drop_while_end_length is_white_space (c :: r)) as L2.
    rewrite H in L1. lia.
  - intros H.
    assert (H' : drop_while_end is_white_space (c :: r) = c :: r)
      by (injection H; auto).
    rewrite H', <- E, strip_core_fixed, E. reflexivity.
Qed.

Lemma request_prefix_idempotent_iff_witness :
  exists p,
    Router.normalizeRequestPrefix (JSString (lit " //app/v2// ")) = Normal p
    /\ Router.normalizeRequestPrefix (JSString p) = Normal p.
Proof.
  destruct (@request_prefix_idempotent_iff (lit " //app/v2// "))
    as (p & H & Hiff).
  exists p. split; [exact H|].
  apply Hiff. vm_compute in H. injection H as <-. reflexivity.
Defined.

(** The other side of X10, at the input of its comment. *)
Example request_prefix_trailing_space :
  Router.normalizeRequestPrefix (JSString (lit "/a /")) = Normal (lit "/a ")
  /\ Router.normalizeRequestPrefix (JSString (lit "/a ")) = Normal (lit "/a").
Proof. split; reflexivity. Qed.

(** ** Inputs that normalise alike *)

Lemma spec_core_spaces (a s b : jsstring) :
  forallb is_white_space a = true -> forallb is_white_space b = true ->
  spec_core (a ++ s ++ b) = spec_core s.
Proof. intros Ha Hb. unfold spec_core. now rewrite trim_pad. Qed.

Lemma spec_core_slashes (a s b : jsstring) :
  forallb is_slash a = true -> forallb is_slash b = true -> trim s = s ->
  spec_core (a ++ s ++ b) = spec_core s.
Proof.
  intros Ha Hb Hs. unfold spec_core.
  rewrite (trim_fixed_pad a b Ha Hb Hs), Hs. now apply strip_pad.
Qed.

(** X4: whitespace around the input does not count: padding a string
    with whitespace on either side changes none of the three results. *)
Theorem surrounding_whitespace_ignored (a s b : jsstring) :
  forallb is_white_space a = true -> forallb is_white_space b = true ->
  exists r p,
    Router.normalizeRouterBase (JSString s) = Normal r
    /\ Router.normalizeRouterBase (JSString (a ++ s ++ b)) = Normal r
    /\ ViteConfig.normalizeBase (JSString (a ++ s ++ b)) = Normal r
    /\ Router.normalizeRequestPrefix (JSString s) = Normal p
    /\ Router.normalizeRequestPrefix (JSString (a ++ s ++ b)) = Normal p.
Proof.
  intros Ha Hb.
  exists (with_slashes (spec_core s)), (with_leading_slash (spec_core s)).
  rewrite !normalizeRouterBase_core, !normalizeRequestPrefix_core,
    normalizeBase_core, (spec_core_spaces a s b Ha Hb).
  repeat split.
Qed.

Lemma surrounding_whitespace_ignored_witness :
  exists r p,
    Router.normalizeRouterBase (JSString (lit "app/")) = Normal r
    /\ Router.normalizeRouterBase
         (JSString ([9; 32]%N ++ lit "app/" ++ [10; 160]%N)) = Normal r
    /\ ViteConfig.normalizeBase
         (JSString ([9; 32]%N ++ lit "app/" ++ [10; 160]%N)) = Normal r
    /\ Router.normalizeRequestPrefix (JSString (lit "app/")) = Normal p
    /\ Router.normalizeRequestPrefix
         (JSString ([9; 32]%N ++ lit "app/" ++ [10; 160]%N)) = Normal p.
Proof.
  apply (@surrounding_whitespace_ignored [9; 32]%N (lit "app/") [10; 160]%N);
    reflexivity.
Defined.

(** X5: the number of slashes at either end does not count: for a string
    [s] without whitespace at its ends, putting any run of slashes before
    and after it changes none of the three results. *)
Theorem surrounding_slashes_ignored (a s b : jsstring) :
  forallb is_slash a = true -> forallb is_slash b = true -> trim s = s ->
  exists r p,
    Router.normalizeRouterBase (JSString s) = Normal r
    /\ Router.normalizeRouterBase (JSString (a ++ s ++ b)) = Normal r
    /\ ViteConfig.normalizeBase (JSString (a ++ s ++ b)) = Normal r
    /\ Router.normalizeRequestPrefix (JSString s) = Normal p
    /\ Router.normalizeRequestPrefix (JSString (a ++ s ++ b)) = Normal p.
Proof.
  intros Ha Hb Hs.
  exists (with_slashes (spec_core s)), (with_leading_slash (spec_core s)).
  rewrite !normalizeRouterBase_core, !normalizeRequestPrefix_core,
    normalizeBase_core, (spec_core_slashes a b Ha Hb Hs).
  repeat split.
Qed.

Lemma surrounding_slashes_ignored_witness :
  exists r p,
    Router.normalizeRouterBase (JSString (lit "app/v2")) = Normal r
    /\ Router.normalizeRouterBase
         (JSString (lit "///" ++ lit "app/v2" ++ lit "//")) = Normal r
    /\ ViteConfig.normalizeBase
         (JSString (lit "///" ++ lit "app/v2" ++ lit "//")) = Normal r
    /\ Router.normalizeRequestPrefix (JSString (lit "app/v2")) = Normal p
    /\ Router.normalizeRequestPrefix
         (JSString (lit "///" ++ lit "app/v2" ++ lit "//")) = Normal p.
Proof.
  apply (@surrounding_slashes_ignored (lit "///") (lit "app/v2") (lit "//"));
    reflexivity.
Defined.

(** Without the hypothesis on [s] the slashes do count: they shield the
    whitespace behind them from [trim]. *)
Example slash_shields_whitespace :
  Router.normalizeRouterBase (JSString (lit " a")) = Normal (lit "/a/")
  /\ Router.normalizeRouterBase (JSString (lit "/" ++ lit " a"))
     = Normal (lit "/ a/").
Proof. split; reflexivity. Qed.

(** X6: the root results characterise the inputs without a prefix: the
    router base is [/], and likewise the request prefix is empty, exactly
    when the trimmed input consists of slashes only (the empty string
    included). *)
Theorem root_iff_only_slashes (s : jsstring) :
  (Router.normalizeRouterBase (JSString s) = Normal (lit "/")
   <-> forallb is_slash (trim s) = true)
  /\ (Router.normalizeRequestPrefix (JSString s) = Normal (lit "")
      <-> forallb is_slash (trim s) = true).
Proof.
  rewrite normalizeRouterBase_core, normalizeRequestPrefix_core.
  rewrite <- (strip_nil (trim s)). fold (spec_core s).
  split; split.
  - intros H. injection H as H. now apply (with_slashes_inj _ []).
  - now intros ->.
  - intros H. injection H as H. now apply (with_leading_slash_inj _ []).
  - now intros ->.
Qed.

Lemma root_iff_only_slashes_witness :
  Router.normalizeRouterBase (JSString (lit "  //// ")) = Normal (lit "/")
  /\ Router.normalizeRequestPrefix (JSString (lit "  //// ")) = Normal (lit "")
  /\ forallb is_slash (trim (lit " /x/ ")) = false.
Proof.
  destruct (@root_iff_only_slashes (lit "  //// ")) as [[_ H1] [_ H2]].
  split; [apply H1; reflexivity|].
  split; [apply H2; reflexivity|reflexivity].
Defined.

(** X7: normalising removes nothing but slashes and whitespace: the code
    units of the input that are neither are all in both results, in the
    same order, and nothing else is. *)
Theorem payload_preserved (s : jsstring) :
  exists r p,
    Router.normalizeRouterBase (JSString s) = Normal r
    /\ Router.normalizeRequestPrefix (JSString s) = Normal p
    /\ payload r = payload s
    /\ payload p = payload s.
Proof.
  exists (with_slashes (spec_core s)), (with_leading_slash (spec_core s)).
  rewrite normalizeRouterBase_core, normalizeRequestPrefix_core,
    payload_with_slashes, payload_with_leading_slash, payload_core.
  repeat split.
Qed.

(** X8: joining the request prefix with a path makes no doubled slash:
    when neither the input nor the path contains [//], the prefix
    followed by the path contains none. *)
Theorem joined_path_no_double_slash (s q : jsstring) :
  includes (lit "//") s = false -> includes (lit "//") q = false ->
  exists p,
    Router.normalizeRequestPrefix (JSString s) = Normal p
    /\ includes (lit "//") (p ++ q) = false.
Proof.
  intros Hs Hq. exists (with_leading_slash (spec_core s)).
  split; [apply normalizeRequestPrefix_core|].
  rewrite includes_slashes_app, with_leading_slash_end,
    with_leading_slash_includes, Hq.
  destruct (core_in_input s) as (pre & post & Hs').
  rewrite Hs' in Hs. now rewrite (includes_slashes_inside _ _ _ Hs).
Qed.

Lemma joined_path_no_double_slash_witness :
  exists p,
    Router.normalizeRequestPrefix (JSString (lit "/easy-mcp/")) = Normal p
    /\ includes (lit "//") (p ++ lit "/api/servers") = false.
Proof.
  apply (@joined_path_no_double_slash (lit "/easy-mcp/") (lit "/api/servers"));
    reflexivity.
Defined.

(** The router base, which ends with a slash, does not join this way. *)
Example router_base_join_doubles_slash :
  Router.normalizeRouterBase (JSString (lit "/easy-mcp/"))
  = Normal (lit "/easy-mcp/")
  /\ includes (lit "//") (lit "/easy-mcp/" ++ lit "/api/servers") = true.
Proof. split; reflexivity. Qed.

(** X9: two inputs have the same router base exactly when they have the
    same request prefix. *)
Theorem same_base_iff_same_prefix (s1 s2 : jsstring) :
  Router.normalizeRouterBase (JSString s1)
  = Router.normalizeRouterBase (JSString s2)
  <-> Router.normalizeRequestPrefix (JSString s1)
      = Router.normalizeRequestPrefix (JSString s2).
Proof.
  rewrite !normalizeRouterBase_core, !normalizeRequestPrefix_core.
  split; intros H; injection H as H; f_equal; f_equal.
  - now apply with_slashes_inj.
  - now apply with_leading_slash_inj.
Qed.

Lemma same_base_iff_same_prefix_witness :
  Router.normalizeRequestPrefix (JSString (lit "app/"))
  = Router.normalizeRequestPrefix (JSString (lit " //app"))
  /\ Router.normalizeRouterBase (JSString (lit "app/")) = Normal (lit "/app/").
Proof.
  split; [|reflexivity].
  apply (@same_base_iff_same_prefix (lit "app/") (lit " //app")). reflexivity.
Defined.
